(** * sk-pkg/i18n: message resolution and response envelopes

    A shallow embedding of the Manager of package i18n (the current
    implementation, with the [trace] sub-structure in the envelope) and the
    properties of its message lookup, language selection, debug gating and
    envelope assembly.

    Go strings are byte sequences: they are [string] here, a list of
    [ascii] bytes.  A Go [map[string]V] is a [gmap string V]; reading a
    missing key, or reading from a nil map, gives the zero value and
    [ok = false].  A method with a pointer receiver that assigns to a field
    is a function from Manager to Manager.

    Names are the source's.  Three types take a trailing underscore, because
    the name is taken: [option_] (the package's [option] struct), [result_]
    (its [result] struct, beside the method [result]) and [Request_]
    ([http.Request], beside the field [Request] of the context). *)

From Stdlib Require Import ZArith Ascii String List Lia.
From stdpp Require Import base option list strings pretty gmap.

Local Open Scope string_scope.
Local Open Scope Z_scope.

(** ** Data model *)

(** [interface{}] values, as far as the package looks at them: the dynamic
    type is the constructor.  [VData] is a value of the package's own struct
    [Data{Params []string; Data interface{}}]; a pointer to such a struct
    has another dynamic type and is a [VPtr]. *)
Inductive any : Type :=
  | VNil
  | VString (s : string)
  | VInt (z : Z)
  | VBool (b : bool)
  | VData (Params : list string) (Data : any)
  | VPtr (target : any).

(** A non-nil [error] interface value, by the text its [Error] method
    returns, which is what [fmt] prints for it under [%v].  An [error]
    parameter is an [option error], and [None] is the nil error. *)
Record error : Type := mkError { Error : string }.

Record option_ : Type := mkOption {
  langDir : string;
  defaultLang : string;
  envKey : string;
  debugMode : bool
}.

(** [Option] is the pointer to the options that [New] allocates; a Manager
    that [New] returns always has one, so it is the record itself here. *)
Record Manager : Type := mkManager {
  LangList : gmap string (gmap string string);
  Option : option_;
  RunEnv : string
}.

Record trace : Type := mkTrace { ID : string; Desc : string }.

(** The envelope.  A Go [int] is a [Z] here; the package only stores the
    code and prints it in decimal. *)
Record result_ : Type := mkResult {
  Code : Z;
  Msg : string;
  Trace : trace;
  Data : any
}.

(** The part of [*gin.Context] the package reads: the request headers
    (keyed by canonical header name, as [net/http] stores them) and the
    per-request key/value store written by [c.Set]. *)
Record Request_ : Type := mkRequest { Header : gmap string (list string) }.

Record Context : Type := mkContext {
  Request : Request_;
  Keys : gmap string any
}.

(** A call either returns or panics. *)
Inductive outcome (A : Type) : Type :=
  | Returns (a : A)
  | Panics (msg : string).
Arguments Returns {A} a.
Arguments Panics {A} msg.

Definition outcome_map {A B : Type} (f : A -> B) (o : outcome A) : outcome B :=
  match o with
  | Returns a => Returns (f a)
  | Panics msg => Panics msg
  end.

(** ** Library functions the package calls *)

(** [strings.Split(s, sep)] for a one-byte separator: the pieces of [s]
    between the occurrences of [sep]; one piece, [s] itself, when there is
    none. *)
Fixpoint Split (s : string) (sep : ascii) : list string :=
  match s with
  | EmptyString => [EmptyString]
  | String c s' =>
      if Ascii.eqb c sep then EmptyString :: Split s' sep
      else match Split s' sep with
           | piece :: rest => String c piece :: rest
           | [] => [String c EmptyString]
           end
  end.

(** [strconv.Itoa]: the decimal form, with a minus sign when negative. *)
Definition Itoa (i : Z) : string := pretty i.

Definition is_lower (c : ascii) : bool :=
  (("a" <=? c) && (c <=? "z"))%char.
Definition is_upper (c : ascii) : bool :=
  (("A" <=? c) && (c <=? "Z"))%char.
Definition to_upper (c : ascii) : ascii :=
  if is_lower c then ascii_of_nat (nat_of_ascii c - 32) else c.
Definition to_lower (c : ascii) : ascii :=
  if is_upper c then ascii_of_nat (nat_of_ascii c + 32) else c.

(** [textproto.CanonicalMIMEHeaderKey] on a key made of letters, digits and
    hyphens (all the keys this package passes are): the first letter and
    each letter after a hyphen in upper case, the others in lower case. *)
Fixpoint canonical (upper : bool) (s : string) : string :=
  match s with
  | EmptyString => EmptyString
  | String c s' =>
      let c' := if upper then to_upper c else to_lower c in
      String c' (canonical (Ascii.eqb c' "-") s')
  end.

Definition CanonicalMIMEHeaderKey (key : string) : string := canonical true key.

(** [http.Header.Get]: the first value stored under the canonical key, or
    the empty string. *)
Definition Header_Get (h : gmap string (list string)) (key : string) : string :=
  match h !! CanonicalMIMEHeaderKey key with
  | Some (v :: _) => v
  | _ => ""
  end.

Definition UserAgent (r : Request_) : string := Header_Get (Header r) "User-Agent".

(** [gin.Context.Get]: the stored value and whether the key exists. *)
Definition Context_Get (c : Context) (key : string) : option any := Keys c !! key.

(** ** The Manager's methods *)

Section Manager.

(** [fmt.Sprintf] applied to string operands.  The package hands it the
    stored template and the caller's parameters and returns what it
    gives; the formatting itself is the Go library's. *)
Variable Sprintf : string -> list string -> string.

Definition Trans (m : Manager) (lang code : string) (params : list string) : string :=
  let l :=
    match LangList m !! lang with
    | Some l => l
    | None => default ∅ (LangList m !! defaultLang (Option m))
    end in
  match l !! code with
  | Some msg =>
      if (0 <? length params)%nat then Sprintf msg params else msg
  | None => code
  end.

(** The mapping [Trans] reads [code] from, as the specification words it:
    the entry of [lang] if present, else the entry of the default language
    if present, else the empty mapping. *)
Definition resolved (m : Manager) (lang : string) : gmap string string :=
  match LangList m !! lang with
  | Some l => l
  | None =>
      match LangList m !! defaultLang (Option m) with
      | Some l => l
      | None => ∅
      end
  end.

(** [lang]: the language of a request.  [lang_param] is the loop body's
    test on one piece of the User-Agent, [lang_scan] the loop, which
    returns at the first piece that passes. *)
Definition lang_param (param : string) : option string :=
  match Split param "=" with
  | [k; v] => if decide (k = "lang") then Some v else None
  | _ => None
  end.

Fixpoint lang_scan (params : list string) : option string :=
  match params with
  | [] => None
  | param :: rest =>
      match lang_param param with
      | Some v => Some v
      | None => lang_scan rest
      end
  end.

Definition lang (m : Manager) (c : Context) : string :=
  let headerLang := Header_Get (Header (Request c)) "lang" in
  if decide (headerLang = "") then
    let ua := UserAgent (Request c) in
    match lang_scan (Split ua ";") with
    | Some v => v
    | None => defaultLang (Option m)
    end
  else headerLang.

Definition isDebugMode (m : Manager) (c : Context) : bool :=
  if decide (RunEnv m = "prod") then false
  else if debugMode (Option m) then true
  else
    let debug := Header_Get (Header (Request c)) "debug" in
    if decide (debug = "") then false else true.

(** The name of a value's dynamic type, as a failed type assertion
    prints it. *)
Fixpoint type_name (v : any) : string :=
  match v with
  | VNil => "nil"
  | VString _ => "string"
  | VInt _ => "int"
  | VBool _ => "bool"
  | VData _ _ => "i18n.Data"
  | VPtr target => "*" ++ type_name target
  end.

(** The type assertion [v.(string)], which panics on any other dynamic
    type and on a nil interface. *)
Definition assert_string (v : any) : outcome string :=
  match v with
  | VString s => Returns s
  | _ =>
      Panics ("interface conversion: interface {} is " ++ type_name v
              ++ ", not string")
  end.

(** [result]: the envelope of a response.  [fmt.Sprintf("%v", err)] on a
    non-nil error is the text of its [Error] method. *)
Definition result (m : Manager) (c : Context) (code : Z) (data : any)
    (err : option error) : outcome result_ :=
  let '(resData, tmplPrams) :=
    match data with
    | VData ps d => (d, ps)
    | _ => (data, [])
    end in
  let msg := Trans m (lang m c) (Itoa code) tmplPrams in
  let traceID :=
    match Context_Get c "trace_id" with
    | Some v => assert_string v
    | None => Returns ""
    end in
  match traceID with
  | Panics p => Panics p
  | Returns id =>
      let desc :=
        match err with
        | Some e => if isDebugMode m c then Error e else ""
        | None => ""
        end in
      Returns (mkResult code msg (mkTrace id desc) resData)
  end.

(** The requests [result] returns on: no ["trace_id"] in the context, or
    a string. *)
Definition trace_id_ok (c : Context) : Prop :=
  Context_Get c "trace_id" = None
  \/ exists id, Context_Get c "trace_id" = Some (VString id).

Definition SetLang (lang : string) (m : Manager) : Manager :=
  if decide (lang = "") then m
  else
    let o := Option m in
    mkManager (LangList m)
      (mkOption (langDir o) lang (envKey o) (debugMode o))
      (RunEnv m).

Definition Count (m : Manager) : nat := size (LangList m).

(** [Lang] ranges over the map; Go leaves the order of a map range
    unspecified, here it is the order of [map_to_list]. *)
Definition Lang (m : Manager) : list string :=
  filter (fun lang => lang <> "") (map_to_list (LangList m)).*1.

Definition LangExist (m : Manager) (lang : string) : bool :=
  bool_decide (is_Some (LangList m !! lang)).

End Manager.

(** ** A formatter to run the methods with

    [Sprintf_sv] is [fmt.Sprintf] on string operands for the formats the
    catalogs of this package use: text with the verbs [%s], [%v] and [%%],
    no flags, width, precision or argument index.  A verb with no operand
    left prints [%!s(MISSING)], a lone [%] at the end [%!(NOVERB)], and
    operands left over are listed as [%!(EXTRA string=..., string=...)].
    [doPrintf] gives [None] on any other format, and [Sprintf_sv] then
    leaves the format as it is; no property below depends on that case. *)
Fixpoint extra_operands (a : list string) : string :=
  match a with
  | [] => ""
  | [x] => "string=" ++ x
  | x :: rest => "string=" ++ x ++ ", " ++ extra_operands rest
  end.

Definition extra (a : list string) : string :=
  match a with
  | [] => ""
  | _ => "%!(EXTRA " ++ extra_operands a ++ ")"
  end.

Fixpoint doPrintf (format : string) (a : list string) : option string :=
  match format with
  | EmptyString => Some (extra a)
  | String c rest =>
      if Ascii.eqb c "%" then
        match rest with
        | EmptyString => Some ("%!(NOVERB)" ++ extra a)
        | String verb rest' =>
            if Ascii.eqb verb "%" then String "%" <$> doPrintf rest' a
            else if Ascii.eqb verb "s" || Ascii.eqb verb "v" then
              match a with
              | [] =>
                  (fun out => "%!" ++ String verb "(MISSING)" ++ out)
                    <$> doPrintf rest' []
              | x :: a' => (fun out => x ++ out) <$> doPrintf rest' a'
              end
            else None
        end
      else String c <$> doPrintf rest a
  end.

Definition Sprintf_sv (format : string) (a : list string) : string :=
  default format (doPrintf format a).

(** The catalog of the specification's scenarios, with English as the
    default language. *)
Definition en_US : gmap string string :=
  {[ "0" := "ok"; "1000" := "Hello,%s! Your id is:%s" ]}.

Definition scenario_manager : Manager :=
  mkManager {[ "en-US" := en_US ]} (mkOption "./lang" "en-US" "RUN_MODE" false) "".

(** ** Pieces of a string *)

Fixpoint has_byte (c : ascii) (s : string) : bool :=
  match s with
  | EmptyString => false
  | String x s' => Ascii.eqb x c || has_byte c s'
  end.

(** A piece of the User-Agent is a language token with value [v] when
    splitting it on ["="] gives exactly the key ["lang"] and [v]. *)
Definition lang_token (param v : string) : Prop := Split param "=" = ["lang"; v].

(** ** The earlier variant of [lang]

    The package's earlier implementation of [lang] reads the same header
    first, but scans the whole User-Agent: every piece that contains ["="]
    and whose key is ["lang"] or ["Lang"] overwrites the language, so the
    last one stands, and pieces after the second are ignored. *)
Module Legacy.

Fixpoint lang_scan (lang : string) (params : list string) : string :=
  match params with
  | [] => lang
  | param :: rest =>
      if has_byte "=" param then
        match Split param "=" with
        | k :: v :: _ =>
            if decide (k = "lang" \/ k = "Lang") then lang_scan v rest
            else lang_scan lang rest
        | _ => lang_scan lang rest
        end
      else lang_scan lang rest
  end.

Definition lang (m : Manager) (c : Context) : string :=
  let headerLang := Header_Get (Header (Request c)) "lang" in
  if decide (headerLang = "") then
    lang_scan (defaultLang (Option m)) (Split (UserAgent (Request c)) ";")
  else headerLang.

End Legacy.

(** A piece of the User-Agent that the earlier [lang] takes a language
    from: splitting it on ["="] gives the key ["lang"] or ["Lang"], then
    the value [v], then anything. *)
Definition Legacy_candidate (param v : string) : Prop :=
  exists k rest, Split param "=" = k :: v :: rest /\ (k = "lang" \/ k = "Lang").

(** ** Concrete managers and requests *)

Definition prod_manager : Manager :=
  mkManager {[ "en-US" := en_US ]} (mkOption "./lang" "en-US" "RUN_MODE" true) "prod".

Definition debug_manager : Manager :=
  mkManager {[ "en-US" := en_US ]} (mkOption "./lang" "en-US" "RUN_MODE" true) "dev".

Definition blank_template_manager : Manager :=
  mkManager {[ "en-US" := {[ "0" := "" ]} ]}
    (mkOption "./lang" "en-US" "RUN_MODE" false) "".

Definition blank_lang_manager : Manager :=
  mkManager {[ "" := ∅; "en-US" := en_US ]}
    (mkOption "./lang" "en-US" "RUN_MODE" false) "".

Definition plain_context : Context := mkContext (mkRequest ∅) ∅.

Definition header_context : Context :=
  mkContext
    (mkRequest {[ "Lang" := ["zh-CN"];
                  "User-Agent" := ["Mozilla/5.0;lang=fr-FR"];
                  "Debug" := ["1"] ]})
    {[ "trace_id" := VString "1213gsgdfd" ]}.

Definition agent_context : Context :=
  mkContext
    (mkRequest {[ "User-Agent" := ["Mozilla/5.0;lang=a=b;lang=fr-FR;lang=de-DE"] ]}) ∅.

Definition numeric_trace_context : Context :=
  mkContext (mkRequest ∅) {[ "trace_id" := VInt 12345 ]}.

(** ** Construction

    [New] reads the catalog from the file system and the run environment
    from the process environment.  Both are inputs here: [Walk dir] is the
    sequence of calls [filepath.Walk] makes to its callback on [dir] (in
    lexical order, a directory before its entries) as long as the callback
    returns nil, [ReadFile] is [os.ReadFile], [Unmarshal] is
    [json.Unmarshal] into an empty [map[string]string], and [Getenv] is
    [os.Getenv].  When the callback returns an error, [filepath.Walk] stops
    and returns it. *)

Definition defaultLangPath : string := "./lang".
(** The constant [defaultLang]; the name is the field's here. *)
Definition defaultLang_ : string := "en-US".
Definition defaultEnvKey : string := "RUN_MODE".

(** The type [Option]: a function that updates the options in place. *)
Definition Option_ : Type := option_ -> option_.

Definition WithLangDir (dir : string) : Option_ :=
  fun o => mkOption dir (defaultLang o) (envKey o) (debugMode o).

Definition WithDefaultLang (lang : string) : Option_ :=
  fun o => mkOption (langDir o) lang (envKey o) (debugMode o).

Definition WithEnvKey (key : string) : Option_ :=
  fun o => mkOption (langDir o) (defaultLang o) key (debugMode o).

Definition WithDebugMode (mode : bool) : Option_ :=
  fun o => mkOption (langDir o) (defaultLang o) (envKey o) mode.

(** [filepath.Ext]: the suffix of the path from the last dot of its last
    element, empty when that element has no dot.  The scan of the source
    runs from the end and stops at a separator; from the front, a later dot
    or separator decides. *)
Fixpoint Ext (path : string) : string :=
  match path with
  | EmptyString => EmptyString
  | String c rest =>
      if has_byte "." rest || has_byte "/" rest then Ext rest
      else if Ascii.eqb c "." then path else EmptyString
  end.

(** [strings.TrimSuffix]: [s] without the given suffix, [s] itself when it
    does not end with it. *)
Fixpoint TrimSuffix (s suffix : string) : string :=
  if String.eqb s suffix then EmptyString
  else match s with
       | EmptyString => EmptyString
       | String c s' => String c (TrimSuffix s' suffix)
       end.

(** The language identifier of a catalog file, from its name. *)
Definition lang_of_name (name : string) : string := TrimSuffix name (Ext name).

(** [os.FileInfo], as far as the callback reads it. *)
Record FileInfo : Type := mkFileInfo { Name : string; IsDir : bool }.

(** One call of the callback: the path, the file's info (nil when the file
    could not be examined, as for a root that does not exist) and the error
    met on the way to it. *)
Record visit : Type := mkVisit {
  path : string;
  info : option FileInfo;
  walk_err : option error
}.

Section Construction.

Variable Walk : string -> list visit.
Variable ReadFile : string -> string + error.
Variable Unmarshal : string -> gmap string string + error.
Variable Getenv : string -> string.

(** The callback of [loadLangFiles] over the calls of the walk, with the
    catalog built so far.  It calls [info.IsDir()] before anything else,
    and does not look at the error it is handed. *)
Fixpoint walk_lang_files (visits : list visit)
    (langList : gmap string (gmap string string))
    : outcome (gmap string (gmap string string) * option error) :=
  match visits with
  | [] => Returns (langList, None)
  | v :: rest =>
      match info v with
      | None =>
          Panics "runtime error: invalid memory address or nil pointer dereference"
      | Some i =>
          if IsDir i then walk_lang_files rest langList
          else
            match ReadFile (path v) with
            | inr err => Returns (langList, Some err)
            | inl byteValue =>
                match Unmarshal byteValue with
                | inr err => Returns (langList, Some err)
                | inl langConfig =>
                    walk_lang_files rest
                      (<[lang_of_name (Name i) := langConfig]> langList)
                end
            end
      end
  end.

Definition loadLangFiles (langDir : string)
    : outcome (gmap string (gmap string string) * option error) :=
  walk_lang_files (Walk langDir) ∅.

Definition New (opts : list Option_) : outcome (Manager + error) :=
  let opt :=
    foldl (fun o f => f o)
      (mkOption defaultLangPath defaultLang_ defaultEnvKey false) opts in
  match loadLangFiles (langDir opt) with
  | Panics p => Panics p
  | Returns (_, Some err) => Returns (inr err)
  | Returns (langList, None) =>
      if decide (size langList = 0%nat) then
        Returns (inr (mkError "没有找到语言配置文件"))
      else
        let runEnv := Getenv (envKey opt) in
        Returns (inl (mkManager langList opt runEnv))
  end.

(** What the callback does on one call of the walk.  [catalog_file v lang]:
    [v] is a file, named for the language [lang].  [parsed v lang
    langConfig]: moreover it is read and parsed, to [langConfig].
    [loads v]: the callback returns nil on [v], a directory or a file that
    is read and parsed.  [fails v err]: [v] is a file that cannot be read
    or parsed, with the error [err]. *)
Definition catalog_file (v : visit) (lang : string) : Prop :=
  exists i, info v = Some i /\ IsDir i = false /\ lang_of_name (Name i) = lang.

Definition parsed (v : visit) (lang : string) (langConfig : gmap string string)
    : Prop :=
  exists i byteValue,
    info v = Some i /\ IsDir i = false /\ lang_of_name (Name i) = lang
    /\ ReadFile (path v) = inl byteValue /\ Unmarshal byteValue = inl langConfig.

Definition loads (v : visit) : Prop :=
  exists i, info v = Some i
    /\ (IsDir i = true
        \/ IsDir i = false
           /\ exists byteValue langConfig,
                ReadFile (path v) = inl byteValue
                /\ Unmarshal byteValue = inl langConfig).

Definition fails (v : visit) (err : error) : Prop :=
  exists i, info v = Some i /\ IsDir i = false
    /\ (ReadFile (path v) = inr err
        \/ exists byteValue,
             ReadFile (path v) = inl byteValue /\ Unmarshal byteValue = inr err).

End Construction.

(** The options [New] works with: the defaults, updated by the given
    options in their order. *)
Definition configured (opts : list Option_) : option_ :=
  foldl (fun o f => f o)
    (mkOption defaultLangPath defaultLang_ defaultEnvKey false) opts.

(** The earlier [New] takes the language identifier of a file as its name
    up to the first dot. *)
Definition Legacy_lang_of_name (name : string) : string :=
  match Split name "." with
  | first :: _ => first
  | [] => EmptyString
  end.

(** ** Responses

    [gin]'s renderers, by name, and what a responder hands to one: the
    HTTP status, the renderer and the envelope. *)
Inductive render : Type :=
  | RenderJSON
  | RenderJSONP
  | RenderAsciiJSON
  | RenderPureJSON
  | RenderXML
  | RenderYAML.

Record response : Type := mkResponse {
  status : Z;
  renderer : render;
  obj : result_
}.

Definition StatusOK : Z := 200.

(** [gin.Context.Set]. *)
Definition Context_Set (c : Context) (key : string) (value : any) : Context :=
  mkContext (Request c) (<[key := value]> (Keys c)).

Section Responders.

Variable Sprintf : string -> list string -> string.

(** A responder builds the envelope and then renders it; a panic in
    [result] leaves nothing rendered.  It returns the context as it leaves
    it and the response. *)
Definition respond (r : render) (m : Manager) (c : Context) (code : Z)
    (data : any) (err : option error) : outcome (Context * response) :=
  match result Sprintf m c code data err with
  | Returns res => Returns (c, mkResponse StatusOK r res)
  | Panics p => Panics p
  end.


Definition JSONP := respond RenderJSONP.
Definition AsciiJSON := respond RenderAsciiJSON.
Definition PureJSON := respond RenderPureJSON.
Definition XML := respond RenderXML.
Definition YAML := respond RenderYAML.

End Responders.

(** A file system for the examples: [./lang] holds two catalogs and a
    sub-directory with an older, empty one; [./broken] holds a catalog and a
    text file; [./empty] holds nothing; no other directory exists. *)
Definition demo_Walk (dir : string) : list visit :=
  if decide (dir = "./lang") then
    [ mkVisit "./lang" (Some (mkFileInfo "lang" true)) None;
      mkVisit "./lang/en-US.json" (Some (mkFileInfo "en-US.json" false)) None;
      mkVisit "./lang/old" (Some (mkFileInfo "old" true)) None;
      mkVisit "./lang/old/en-US.json" (Some (mkFileInfo "en-US.json" false)) None;
      mkVisit "./lang/zh-CN.json" (Some (mkFileInfo "zh-CN.json" false)) None ]
  else if decide (dir = "./broken") then
    [ mkVisit "./broken" (Some (mkFileInfo "broken" true)) None;
      mkVisit "./broken/en-US.json" (Some (mkFileInfo "en-US.json" false)) None;
      mkVisit "./broken/notes.txt" (Some (mkFileInfo "notes.txt" false)) None ]
  else if decide (dir = "./empty") then
    [ mkVisit "./empty" (Some (mkFileInfo "empty" true)) None ]
  else
    [ mkVisit dir None (Some (mkError "no such file or directory")) ].

(** The two catalog documents of the demonstration, [{"0":"ok"}] and
    [{"0":"hao"}], with the quotation mark written by its code. *)
Definition quote : string := String (ascii_of_nat 34) EmptyString.

Definition en_document : string :=
  "{" ++ quote ++ "0" ++ quote ++ ":" ++ quote ++ "ok" ++ quote ++ "}".

Definition zh_document : string :=
  "{" ++ quote ++ "0" ++ quote ++ ":" ++ quote ++ "hao" ++ quote ++ "}".

Definition demo_ReadFile (p : string) : string + error :=
  if decide (p = "./lang/en-US.json") then inl en_document
  else if decide (p = "./lang/old/en-US.json") then inl "{}"
  else if decide (p = "./lang/zh-CN.json") then inl zh_document
  else if decide (p = "./broken/en-US.json") then inl "{}"
  else if decide (p = "./broken/notes.txt") then inl "to do"
  else inr (mkError "no such file or directory").

(** [json.Unmarshal] on the contents of the files above. *)
Definition demo_Unmarshal (byteValue : string) : gmap string string + error :=
  if decide (byteValue = "{}") then inl ∅
  else if decide (byteValue = en_document) then inl {[ "0" := "ok" ]}
  else if decide (byteValue = zh_document) then inl {[ "0" := "hao" ]}
  else inr (mkError "invalid character 'o' in literal true (expecting 'r')").

Definition demo_Getenv (key : string) : string :=
  if decide (key = "RUN_MODE") then "prod" else "".

(** The Manager that [New] makes of that file system with no option: the
    older, empty catalog of [en-US] is the one read last. *)
Definition demo_manager : Manager :=
  mkManager {[ "en-US" := ∅; "zh-CN" := {[ "0" := "hao" ]} ]}
    (mkOption "./lang" "en-US" "RUN_MODE" false) "prod".

(** ** The scenarios of the specification *)

Example scenario_A :
  Trans Sprintf_sv scenario_manager "en-US" "1000" ["Seakee"; "18888888888"]
  = "Hello,Seakee! Your id is:18888888888".
Proof. vm_compute. reflexivity. Qed.

Example scenario_B : Trans Sprintf_sv scenario_manager "fr-FR" "0" [] = "ok".
Proof. vm_compute. reflexivity. Qed.

Example scenario_C : Trans Sprintf_sv scenario_manager "en-US" "404" [] = "404".
Proof. vm_compute. reflexivity. Qed.

Example Sprintf_sv_missing : Sprintf_sv "%s and %s" ["a"] = "a and %!s(MISSING)".
Proof. vm_compute. reflexivity. Qed.

Example Sprintf_sv_extra :
  Sprintf_sv "%s" ["a"; "b"; "c"] = "a%!(EXTRA string=b, string=c)".
Proof. vm_compute. reflexivity. Qed.

Example Itoa_examples : Itoa 0 = "0" /\ Itoa (-1) = "-1" /\ Itoa 1000 = "1000".
Proof. vm_compute. auto. Qed.

Example Split_examples :
  Split "a;b;;c" ";" = ["a"; "b"; ""; "c"] /\ Split "" ";" = [""]
  /\ Split "abc" ";" = ["abc"] /\ Split "lang=a=b" "=" = ["lang"; "a"; "b"].
Proof. vm_compute. auto. Qed.

Example canonical_examples :
  CanonicalMIMEHeaderKey "lang" = "Lang" /\ CanonicalMIMEHeaderKey "debug" = "Debug"
  /\ CanonicalMIMEHeaderKey "User-Agent" = "User-Agent"
  /\ CanonicalMIMEHeaderKey "uSER-aGENT" = "User-Agent".
Proof. vm_compute. auto. Qed.

(** ** Splitting strings *)

Lemma Split_not_nil (s : string) (sep : ascii) : Split s sep <> [].
Proof.
  induction s as [|c s IH]; simpl; [done|].
  destruct (Ascii.eqb c sep); [done|].
  by destruct (Split s sep).
Qed.

Lemma Split_no_sep (s : string) (sep : ascii) :
  has_byte sep s = false -> Split s sep = [s].
Proof.
  induction s as [|c s IH]; simpl; [done|].
  intros [Hc Hs]%orb_false_elim. rewrite Hc, (IH Hs). done.
Qed.

Lemma Split_app (s1 s2 : string) (sep : ascii) :
  has_byte sep s1 = false ->
  Split (s1 ++ String sep s2) sep = s1 :: Split s2 sep.
Proof.
  induction s1 as [|c s1 IH]; simpl.
  - intros _. by rewrite Ascii.eqb_refl.
  - intros [Hc Hs]%orb_false_elim. rewrite Hc, (IH Hs). done.
Qed.

Lemma Split_single_inv (s t : string) (sep : ascii) :
  Split s sep = [t] -> t = s /\ has_byte sep s = false.
Proof.
  revert t. induction s as [|c s IH]; simpl; intros t.
  - intros [= <-]. done.
  - destruct (Ascii.eqb c sep) eqn:Hc.
    + intros [= _ Hnil]. by apply Split_not_nil in Hnil.
    + destruct (Split s sep) as [|p r] eqn:Hs; [by apply Split_not_nil in Hs|].
      intros [= <- ->]. destruct (IH p eq_refl) as [-> ->]. done.
Qed.

Lemma Split_cons_inv (s a b : string) (rest : list string) (sep : ascii) :
  Split s sep = a :: b :: rest ->
  exists s', s = a ++ String sep s' /\ has_byte sep a = false
             /\ Split s' sep = b :: rest.
Proof.
  revert a. induction s as [|c s IH]; simpl; intros a; [done|].
  destruct (Ascii.eqb c sep) eqn:Hc.
  - intros [= <- Hs]. apply Ascii.eqb_eq in Hc as ->. by exists s.
  - destruct (Split s sep) as [|p r] eqn:Hs; [done|].
    intros [= <- ->]. destruct (IH p eq_refl) as (s' & -> & Hp & Hs').
    exists s'. simpl. rewrite Hc, Hp. done.
Qed.

(** A language token is a piece of the form [lang=v] with no further
    ["="] in [v]. *)
Lemma lang_token_iff (param v : string) :
  lang_token param v <-> param = "lang=" ++ v /\ has_byte "=" v = false.
Proof.
  unfold lang_token. split.
  - intros (s' & -> & _ & Hs')%Split_cons_inv.
    apply Split_single_inv in Hs' as [-> Hv]. done.
  - intros [-> Hv].
    change ("lang=" ++ v) with ("lang" ++ String "=" v).
    rewrite Split_app by done. by rewrite Split_no_sep.
Qed.

Lemma lang_param_Some (param v : string) :
  lang_param param = Some v <-> lang_token param v.
Proof.
  unfold lang_param, lang_token.
  destruct (Split param "=") as [|k [|v' [|? ?]]]; try (split; congruence).
  case_decide; subst; split; congruence.
Qed.

Lemma lang_param_None (param : string) :
  lang_param param = None <-> forall v, ~ lang_token param v.
Proof.
  split.
  - intros Hn v Hv%lang_param_Some. congruence.
  - intros Hn. destruct (lang_param param) as [v|] eqn:Hp; [|done].
    apply lang_param_Some in Hp. by apply Hn in Hp.
Qed.

Lemma lang_scan_first (before after : list string) (param v : string) :
  (forall p, p ∈ before -> forall w, ~ lang_token p w) ->
  lang_token param v ->
  lang_scan (before ++ param :: after) = Some v.
Proof.
  intros Hb Hv. induction before as [|p before IH]; simpl.
  - apply lang_param_Some in Hv. by rewrite Hv.
  - assert (lang_param p = None) as ->
      by (apply lang_param_None; apply Hb; left).
    apply IH. intros q Hq. apply Hb. by right.
Qed.

Lemma lang_scan_none (params : list string) :
  (forall p, p ∈ params -> forall w, ~ lang_token p w) ->
  lang_scan params = None.
Proof.
  induction params as [|p params IH]; simpl; [done|]. intros Hb.
  assert (lang_param p = None) as ->
    by (apply lang_param_None; apply Hb; left).
  apply IH. intros q Hq. apply Hb. by right.
Qed.

(** ** Message lookup *)

Section Trans_properties.

Variable Sprintf : string -> list string -> string.

Lemma Trans_resolved (m : Manager) (lang code : string) (params : list string) :
  Trans Sprintf m lang code params =
    match resolved m lang !! code with
    | Some msg => if (0 <? length params)%nat then Sprintf msg params else msg
    | None => code
    end.
Proof.
  unfold Trans, resolved.
  destruct (LangList m !! lang); [done|].
  by destruct (LangList m !! defaultLang (Option m)).
Qed.

(** C1: a language that is not a key of the catalog is resolved as the
    configured default language: [Trans] gives the same string for both,
    whatever the code and the parameters. *)
Theorem Trans_absent_lang_is_default (m : Manager) (lang code : string)
    (params : list string) :
  LangList m !! lang = None ->
  Trans Sprintf m lang code params
  = Trans Sprintf m (defaultLang (Option m)) code params.
Proof.
  intros Habsent. unfold Trans. rewrite Habsent.
  by destruct (LangList m !! defaultLang (Option m)).
Qed.

(** C2: when the resolved mapping (the entry of [lang], else the entry of
    the default language, else the empty mapping) has no entry for the
    code, [Trans] returns the code unchanged. *)
Theorem Trans_missing_code_echoes (m : Manager) (lang code : string)
    (params : list string) :
  resolved m lang !! code = None ->
  Trans Sprintf m lang code params = code.
Proof. intros Hmiss. by rewrite Trans_resolved, Hmiss. Qed.

(** C5, as amended: [Trans] returns the code itself when the resolved
    mapping has no entry for it, and the stored template when there is
    one and no parameter is given; so its result is non-empty when the
    code is non-empty in the first case, and when the template is
    non-empty in the second. *)
Theorem Trans_nonempty (m : Manager) (lang code : string) :
  (forall params, resolved m lang !! code = None ->
     Trans Sprintf m lang code params = code
     /\ (code <> "" -> Trans Sprintf m lang code params <> ""))
  /\ (forall msg, resolved m lang !! code = Some msg ->
        Trans Sprintf m lang code [] = msg
        /\ (msg <> "" -> Trans Sprintf m lang code [] <> "")).
Proof.
  split.
  - intros params Hmiss. rewrite Trans_resolved, Hmiss. done.
  - intros msg Hfound. rewrite Trans_resolved, Hfound. done.
Qed.

End Trans_properties.

Lemma Trans_absent_lang_is_default_witness :
  LangList scenario_manager !! "fr-FR" = None
  /\ Trans Sprintf_sv scenario_manager "fr-FR" "1000" ["Seakee"; "18888888888"]
     = Trans Sprintf_sv scenario_manager "en-US" "1000" ["Seakee"; "18888888888"].
Proof.
  split; [reflexivity|].
  apply (Trans_absent_lang_is_default Sprintf_sv scenario_manager "fr-FR").
  reflexivity.
Defined.

Lemma Trans_missing_code_echoes_witness :
  resolved scenario_manager "en-US" !! "404" = None
  /\ Trans Sprintf_sv scenario_manager "en-US" "404" ["x"] = "404".
Proof.
  split; [reflexivity|].
  apply (Trans_missing_code_echoes Sprintf_sv scenario_manager "en-US" "404").
  reflexivity.
Defined.

(** C5 fails as stated: the empty code is echoed as the empty string, and
    an empty template is returned as it is; no formatter is called in
    either case. *)
Lemma Trans_empty_counterexample :
  (forall Sprintf, Trans Sprintf scenario_manager "en-US" "" [] = "")
  /\ (forall Sprintf, Trans Sprintf blank_template_manager "en-US" "0" [] = "").
Proof. split; intros Sprintf; reflexivity. Qed.

Lemma Trans_nonempty_witness :
  (resolved scenario_manager "fr-FR" !! "404" = None /\ "404" <> ""
   /\ Trans Sprintf_sv scenario_manager "fr-FR" "404" ["x"] <> "")
  /\ (resolved scenario_manager "fr-FR" !! "0" = Some "ok" /\ "ok" <> ""
      /\ Trans Sprintf_sv scenario_manager "fr-FR" "0" [] <> "").
Proof.
  pose proof (Trans_nonempty Sprintf_sv scenario_manager "fr-FR" "404") as [H404 _].
  pose proof (Trans_nonempty Sprintf_sv scenario_manager "fr-FR" "0") as [_ H0].
  split.
  - split; [reflexivity|]. split; [discriminate|].
    apply (H404 ["x"]); [reflexivity | discriminate].
  - split; [reflexivity|]. split; [discriminate|].
    apply (H0 "ok"); [reflexivity | discriminate].
Defined.

(** ** Debug gating *)

(** C3: in the run environment ["prod"], [isDebugMode] is false for every
    request, whatever the configured [debugMode] flag and whatever the
    request's ["debug"] header. *)
Theorem isDebugMode_prod (m : Manager) (c : Context) :
  RunEnv m = "prod" -> isDebugMode m c = false.
Proof. intros Hprod. unfold isDebugMode. by rewrite decide_True. Qed.

Lemma isDebugMode_prod_witness :
  RunEnv prod_manager = "prod" /\ debugMode (Option prod_manager) = true
  /\ Header_Get (Header (Request header_context)) "debug" = "1"
  /\ isDebugMode prod_manager header_context = false.
Proof.
  split; [reflexivity|]. split; [reflexivity|]. split; [reflexivity|].
  apply (isDebugMode_prod prod_manager header_context). reflexivity.
Defined.

(** Outside ["prod"], the flag decides first and the header second. *)
Lemma isDebugMode_not_prod (m : Manager) (c : Context) :
  RunEnv m <> "prod" ->
  isDebugMode m c = true
  <-> debugMode (Option m) = true
      \/ Header_Get (Header (Request c)) "debug" <> "".
Proof.
  intros Hprod. unfold isDebugMode. rewrite decide_False by done.
  destruct (debugMode (Option m)); [by split; auto|].
  destruct (decide (Header_Get (Header (Request c)) "debug" = "")) as [He|Hne].
  - split; [done|]. intros [Hflag|Hheader]; done.
  - split; auto.
Qed.

(** ** Language selection *)

(** C6: the language of a request, by precedence.  A non-empty ["lang"]
    header is returned as it is, whatever the catalog holds.  Otherwise the
    User-Agent is split on [";"], and the value of its first language token
    (a piece that splits on ["="] into exactly ["lang"] and a value) is
    returned.  Otherwise the configured default language is returned. *)
Theorem lang_precedence (m : Manager) (c : Context) :
  let headerLang := Header_Get (Header (Request c)) "lang" in
  let pieces := Split (UserAgent (Request c)) ";" in
  (headerLang <> "" -> lang m c = headerLang)
  /\ (headerLang = "" ->
      forall (before : list string) (param : string) (after : list string) v,
        pieces = (before ++ param :: after)%list ->
        (forall p, p ∈ before -> forall w, ~ lang_token p w) ->
        lang_token param v ->
        lang m c = v)
  /\ (headerLang = "" ->
      (forall p, p ∈ pieces -> forall w, ~ lang_token p w) ->
      lang m c = defaultLang (Option m)).
Proof.
  intros headerLang pieces. unfold lang. fold headerLang. fold pieces.
  split; [|split].
  - intros Hh. by rewrite decide_False.
  - intros Hh before param after v Hpieces Hbefore Htoken.
    rewrite decide_True by done.
    by rewrite Hpieces, (lang_scan_first before after param v).
  - intros Hh Hnone. rewrite decide_True by done.
    by rewrite lang_scan_none.
Qed.

Lemma lang_precedence_witness :
  (Header_Get (Header (Request header_context)) "lang" = "zh-CN"
   /\ LangList scenario_manager !! "zh-CN" = None
   /\ lang scenario_manager header_context = "zh-CN")
  /\ lang scenario_manager agent_context = "fr-FR"
  /\ lang scenario_manager plain_context = "en-US".
Proof.
  pose proof (lang_precedence scenario_manager header_context) as (Hheader & _ & _).
  pose proof (lang_precedence scenario_manager agent_context) as (_ & Hagent & _).
  pose proof (lang_precedence scenario_manager plain_context) as (_ & _ & Hplain).
  split; [|split].
  - split; [reflexivity|]. split; [reflexivity|]. apply Hheader. discriminate.
  - apply (Hagent eq_refl ["Mozilla/5.0"; "lang=a=b"] "lang=fr-FR" ["lang=de-DE"]).
    + reflexivity.
    + intros p Hp w Hw. unfold lang_token in Hw.
      apply elem_of_cons in Hp as [-> | Hp]; [discriminate Hw|].
      apply elem_of_cons in Hp as [-> | Hp]; [discriminate Hw|].
      by apply elem_of_nil in Hp.
    + reflexivity.
  - apply (Hplain eq_refl). intros p Hp w Hw. unfold lang_token in Hw.
    apply elem_of_cons in Hp as [-> | Hp]; [discriminate Hw|].
    by apply elem_of_nil in Hp.
Defined.

(** The two variants of [lang] read the header alike, and part on a
    User-Agent with more than one candidate piece: the current one stops at
    the first language token, the earlier one keeps the last piece keyed
    ["lang"] or ["Lang"]. *)
Lemma Legacy_lang_header (m : Manager) (c : Context) :
  Header_Get (Header (Request c)) "lang" <> "" ->
  Legacy.lang m c = lang m c.
Proof. intros Hh. unfold Legacy.lang, lang. by rewrite !decide_False. Qed.

Example Legacy_lang_last_piece :
  Legacy.lang scenario_manager agent_context = "de-DE"
  /\ lang scenario_manager agent_context = "fr-FR".
Proof. split; reflexivity. Qed.

(** ** Changing the default language *)

(** C9: [SetLang ""] leaves the Manager as it is; [SetLang] with a
    non-empty string sets the default language to it and leaves every other
    field as it was; and the default language only changes in a call with a
    non-empty string. *)
Theorem SetLang_frame (m : Manager) :
  SetLang "" m = m
  /\ (forall lang, lang <> "" ->
        defaultLang (Option (SetLang lang m)) = lang
        /\ LangList (SetLang lang m) = LangList m
        /\ RunEnv (SetLang lang m) = RunEnv m
        /\ langDir (Option (SetLang lang m)) = langDir (Option m)
        /\ envKey (Option (SetLang lang m)) = envKey (Option m)
        /\ debugMode (Option (SetLang lang m)) = debugMode (Option m))
  /\ (forall lang, SetLang lang m <> m -> lang <> "").
Proof.
  split; [done|]. split.
  - intros lang Hlang. unfold SetLang. by rewrite decide_False.
  - intros lang Hchanged ->. by apply Hchanged.
Qed.

Lemma SetLang_frame_witness :
  SetLang "" scenario_manager = scenario_manager
  /\ defaultLang (Option (SetLang "zh-CN" scenario_manager)) = "zh-CN"
  /\ LangList (SetLang "zh-CN" scenario_manager) = LangList scenario_manager
  /\ SetLang "zh-CN" scenario_manager <> scenario_manager.
Proof.
  pose proof (SetLang_frame scenario_manager) as (Hempty & Hset & _).
  destruct (Hset "zh-CN") as (Hdefault & Hlist & _); [discriminate|].
  split; [exact Hempty|]. split; [exact Hdefault|]. split; [exact Hlist|].
  discriminate.
Defined.

(** ** Supported languages *)


(** ** Supported languages *)

Lemma elem_of_keys (m : Manager) (lang : string) :
  lang ∈ (map_to_list (LangList m)).*1 <-> is_Some (LangList m !! lang).
Proof.
  rewrite list_elem_of_fmap. split.
  - intros ([k l] & -> & Hkl). apply elem_of_map_to_list in Hkl. by exists l.
  - intros [l Hl]. exists (lang, l). split; [done|].
    by apply elem_of_map_to_list.
Qed.

Lemma filter_nonblank_all (keys : list string) :
  (forall k, k ∈ keys -> k <> "") ->
  filter (fun lang : string => lang <> "") keys = keys.
Proof.
  induction keys as [|k keys IH]; intros Hall; [done|].
  rewrite filter_cons_True by (apply Hall; left).
  f_equal. apply IH. intros k' Hk'. apply Hall. by right.
Qed.

Lemma length_filter_nonblank (keys : list string) :
  NoDup keys -> "" ∈ keys ->
  length keys = S (length (filter (fun lang : string => lang <> "") keys)).
Proof.
  induction 1 as [|k keys Hk Hnodup IH]; intros Hblank;
    [by apply elem_of_nil in Hblank|].
  destruct (decide (k = "")) as [->|Hne].
  - rewrite filter_cons_False by (by intros Hn).
    rewrite filter_nonblank_all; [done|]. by intros k Hin ->.
  - rewrite filter_cons_True by done. simpl. f_equal. apply IH.
    apply elem_of_cons in Hblank as [Hblank|Hblank]; [by subst|done].
Qed.

(** C10: [Lang] lists, once each, the keys of the catalog other than the
    empty string, and [Count] is the number of all its keys; so a catalog
    with the empty string among its keys has [Count] strictly above the
    length of [Lang], by one. *)
Theorem Lang_Count (m : Manager) :
  (forall lang, lang ∈ Lang m <-> is_Some (LangList m !! lang) /\ lang <> "")
  /\ NoDup (Lang m)
  /\ Count m = length (map_to_list (LangList m)).*1
  /\ Count m = size (dom (LangList m))
  /\ (is_Some (LangList m !! "") ->
      (length (Lang m) < Count m)%nat /\ Count m = S (length (Lang m)))
  /\ (LangList m !! "" = None -> Count m = length (Lang m)).
Proof.
  unfold Lang, Count.
  assert (size (LangList m) = length (map_to_list (LangList m)).*1) as Hsize
    by (by rewrite length_fmap, length_map_to_list).
  pose proof (NoDup_fst_map_to_list (LangList m)) as Hnodup.
  split; [|split; [|split; [|split; [|split]]]].
  - intros lang. rewrite list_elem_of_filter, elem_of_keys. tauto.
  - by apply NoDup_filter.
  - done.
  - by rewrite size_dom.
  - intros Hblank%elem_of_keys. rewrite Hsize.
    rewrite (length_filter_nonblank _ Hnodup Hblank). split; [lia | done].
  - intros Hnone. rewrite Hsize, filter_nonblank_all; [done|].
    intros k [l Hk]%elem_of_keys ->. congruence.
Qed.

Lemma Lang_Count_witness :
  is_Some (LangList blank_lang_manager !! "")
  /\ Count blank_lang_manager = 2%nat
  /\ Lang blank_lang_manager = ["en-US"]
  /\ (length (Lang blank_lang_manager) < Count blank_lang_manager)%nat.
Proof.
  pose proof (Lang_Count blank_lang_manager) as (_ & _ & _ & _ & Hblank & _).
  split; [by eexists|]. split; [reflexivity|]. split; [reflexivity|].
  apply Hblank. by eexists.
Defined.

(** ** Envelope assembly *)

Section result_properties.

Variable Sprintf : string -> list string -> string.

(** What [result] returns, field by field, when it returns. *)
Lemma result_Returns (m : Manager) (c : Context) (code : Z) (data : any)
    (err : option error) (res : result_) :
  result Sprintf m c code data err = Returns res <->
  exists id,
    (Context_Get c "trace_id" = None /\ id = ""
     \/ Context_Get c "trace_id" = Some (VString id))
    /\ res = mkResult code
              (Trans Sprintf m (lang m c) (Itoa code)
                 match data with VData params _ => params | _ => [] end)
              (mkTrace id
                 match err with
                 | Some e => if isDebugMode m c then Error e else ""
                 | None => ""
                 end)
              match data with VData _ d => d | _ => data end.
Proof.
  unfold result. split.
  - destruct (Context_Get c "trace_id") as [v|]; [destruct v|];
      destruct data; simpl; try done;
      intros [= <-]; eexists; (split; [first [by left | by right] | done]).
  - intros (id & [[-> ->] | ->] & ->); by destruct data.
Qed.

Lemma result_returns (m : Manager) (c : Context) (code : Z) (data : any)
    (err : option error) :
  trace_id_ok c <-> exists res, result Sprintf m c code data err = Returns res.
Proof.
  split.
  - intros [Hnone | [id Hid]]; eexists; apply result_Returns; eauto.
  - intros [res (id & [[Hnone _] | Hid] & _)%result_Returns];
      [by left | right; eauto].
Qed.

(** A value under ["trace_id"] that is not a string makes [result] panic
    in the type assertion. *)
Lemma result_panics (m : Manager) (c : Context) (code : Z) (data : any)
    (err : option error) (v : any) :
  Context_Get c "trace_id" = Some v ->
  (forall id, v <> VString id) ->
  result Sprintf m c code data err
  = Panics ("interface conversion: interface {} is " ++ type_name v
            ++ ", not string").
Proof.
  intros Hv Hnot. unfold result. rewrite Hv.
  destruct v; try (by destruct data). by destruct (Hnot s).
Qed.

(** C7: a payload that is a [Data] struct gives its inner [Data] field as
    the envelope's data and its [Params] as the substitution arguments of
    the message; any other payload is the envelope's data itself and the
    message is resolved with no substitution argument.  The call returns
    whenever the context holds no trace id or a string. *)
Theorem result_payload (m : Manager) (c : Context) (code : Z) (data : any)
    (err : option error) :
  (trace_id_ok c -> exists res, result Sprintf m c code data err = Returns res)
  /\ (forall res, result Sprintf m c code data err = Returns res ->
        match data with
        | VData params d =>
            Data res = d
            /\ Msg res = Trans Sprintf m (lang m c) (Itoa code) params
        | _ =>
            Data res = data
            /\ Msg res = Trans Sprintf m (lang m c) (Itoa code) []
        end).
Proof.
  split; [apply result_returns|].
  intros res (id & _ & ->)%result_Returns. by destruct data.
Qed.

(** C8, as amended: the trace description is the text of [err] when debug
    output is allowed for the request and [err] is not nil, and the empty
    string otherwise; and [err] changes neither the code nor the message of
    the envelope, nor whether the call returns. *)
Theorem result_trace_desc (m : Manager) (c : Context) (code : Z) (data : any) :
  (forall err res, result Sprintf m c code data err = Returns res ->
     (forall e, isDebugMode m c = true -> err = Some e ->
        Desc (Trace res) = Error e)
     /\ (~ (isDebugMode m c = true /\ err <> None) -> Desc (Trace res) = ""))
  /\ (forall err1 err2,
        outcome_map Code (result Sprintf m c code data err1)
        = outcome_map Code (result Sprintf m c code data err2)
        /\ outcome_map Msg (result Sprintf m c code data err1)
           = outcome_map Msg (result Sprintf m c code data err2))
  /\ (trace_id_ok c ->
      forall err, exists res, result Sprintf m c code data err = Returns res).
Proof.
  split; [|split].
  - intros err res (id & _ & ->)%result_Returns. simpl. split.
    + by intros e -> ->.
    + intros Hnot. destruct err as [e|]; [|done].
      destruct (isDebugMode m c); [|done]. by destruct Hnot.
  - intros err1 err2. unfold result.
    destruct (Context_Get c "trace_id") as [v|]; [|by destruct data].
    destruct (assert_string v); by destruct data.
  - intros Hok err. by apply result_returns.
Qed.

End result_properties.

Lemma result_payload_witness :
  trace_id_ok header_context
  /\ (exists res,
        result Sprintf_sv scenario_manager header_context 1000
          (VData ["Seakee"; "18888888888"] (VString "test")) None = Returns res
        /\ Data res = VString "test"
        /\ Msg res
           = Trans Sprintf_sv scenario_manager "zh-CN" "1000"
               ["Seakee"; "18888888888"])
  /\ (exists res,
        result Sprintf_sv scenario_manager header_context 0 (VString "ok") None
        = Returns res
        /\ Data res = VString "ok" /\ Msg res = "ok").
Proof.
  assert (trace_id_ok header_context) as Hok by (right; by eexists).
  split; [exact Hok|]. split.
  - destruct (result_payload Sprintf_sv scenario_manager header_context 1000
                (VData ["Seakee"; "18888888888"] (VString "test")) None)
      as [Hret Hres].
    destruct (Hret Hok) as [res Hr]. exists res. split; [exact Hr|].
    exact (Hres res Hr).
  - destruct (result_payload Sprintf_sv scenario_manager header_context 0
                (VString "ok") None) as [Hret Hres].
    destruct (Hret Hok) as [res Hr]. exists res. split; [exact Hr|].
    exact (Hres res Hr).
Defined.

(** C8 fails as stated in one direction of its equivalence: with debug
    output not allowed, the description of an error whose text is empty is
    the empty string, which is the text of that error. *)
Lemma result_trace_desc_counterexample :
  exists res,
    result Sprintf_sv prod_manager plain_context 0 (VString "ok")
      (Some (mkError "")) = Returns res
    /\ Desc (Trace res) = Error (mkError "")
    /\ isDebugMode prod_manager plain_context = false.
Proof. eexists. split; [reflexivity|]. split; reflexivity. Qed.

Lemma result_trace_desc_witness :
  (exists res,
     result Sprintf_sv debug_manager plain_context (-1) (VString "busy")
       (Some (mkError "busy... ")) = Returns res
     /\ Desc (Trace res) = "busy... ")
  /\ (exists res,
        result Sprintf_sv prod_manager plain_context (-1) (VString "busy")
          (Some (mkError "busy... ")) = Returns res
        /\ Desc (Trace res) = "").
Proof.
  split.
  - destruct (result_trace_desc Sprintf_sv debug_manager plain_context (-1)
                (VString "busy")) as (Hdesc & _ & Hret).
    destruct (Hret (or_introl eq_refl) (Some (mkError "busy... "))) as [res Hr].
    exists res. split; [exact Hr|].
    destruct (Hdesc _ res Hr) as [Hon _].
    exact (Hon (mkError "busy... ") eq_refl eq_refl).
  - destruct (result_trace_desc Sprintf_sv prod_manager plain_context (-1)
                (VString "busy")) as (Hdesc & _ & Hret).
    destruct (Hret (or_introl eq_refl) (Some (mkError "busy... "))) as [res Hr].
    exists res. split; [exact Hr|].
    destruct (Hdesc _ res Hr) as [_ Hoff]. apply Hoff. by intros [Hdebug _].
Defined.

(** C4 does not hold of the code: [result] asserts that the value stored
    under ["trace_id"] is a string without checking it, and a context that
    holds a number there makes the call panic. *)
Theorem result_panics_on_numeric_trace_id :
  Context_Get numeric_trace_context "trace_id" = Some (VInt 12345)
  /\ (forall Sprintf code data err,
        result Sprintf scenario_manager numeric_trace_context code data err
        = Panics "interface conversion: interface {} is int, not string").
Proof.
  split; [reflexivity|]. intros Sprintf code data err.
  by rewrite (result_panics Sprintf _ _ _ _ _ (VInt 12345)).
Qed.

(** ** Language identifiers of catalog files *)

Lemma String_append (c : ascii) (s t : string) :
  String c s ++ t = String c (s ++ t).
Proof. reflexivity. Qed.

Lemma append_empty (s : string) : s ++ "" = s.
Proof.
  induction s as [|c s IH]; [done|]. by rewrite String_append, IH.
Qed.

Lemma has_byte_app (c : ascii) (s t : string) :
  has_byte c (s ++ t) = has_byte c s || has_byte c t.
Proof.
  induction s as [|x s IH]; simpl; [done|]. by rewrite IH, orb_assoc.
Qed.

Lemma Ext_dot (l e : string) :
  has_byte "." e = false -> has_byte "/" e = false ->
  Ext (l ++ String "." e) = String "." e.
Proof.
  intros Hdot Hsep. induction l as [|c l IH]; simpl.
  - by rewrite Hdot, Hsep.
  - rewrite has_byte_app. simpl. by rewrite orb_true_r.
Qed.

Lemma Ext_no_dot (name : string) : has_byte "." name = false -> Ext name = "".
Proof.
  induction name as [|c name IH]; simpl; [done|].
  intros [Hc Hname]%orb_false_elim. rewrite Hname, Hc. simpl.
  destruct (has_byte "/" name); [by apply IH | done].
Qed.

(** [Ext] gives a suffix of the name. *)
Lemma Ext_suffix (name : string) : exists base, name = base ++ Ext name.
Proof.
  induction name as [|c name [base IH]]; simpl; [by exists ""|].
  destruct (has_byte "." name || has_byte "/" name).
  - exists (String c base). rewrite String_append. by f_equal.
  - destruct (Ascii.eqb c "."); [by exists "" |].
    exists (String c name). by rewrite append_empty.
Qed.

Lemma length_append (s t : string) :
  String.length (s ++ t) = (String.length s + String.length t)%nat.
Proof.
  induction s as [|c s IH]; [done|]. rewrite String_append. simpl. by rewrite IH.
Qed.

Lemma String_app_neq (c : ascii) (l s : string) : String c (l ++ s) <> s.
Proof.
  intros Heq. apply (f_equal String.length) in Heq. simpl in Heq.
  rewrite length_append in Heq. lia.
Qed.

Lemma TrimSuffix_self (s : string) : TrimSuffix s s = "".
Proof. destruct s; simpl; [done|]. by rewrite Ascii.eqb_refl, String.eqb_refl. Qed.

Lemma TrimSuffix_cons (c : ascii) (s suffix : string) :
  TrimSuffix (String c s) suffix
  = if String.eqb (String c s) suffix then "" else String c (TrimSuffix s suffix).
Proof. reflexivity. Qed.

Lemma TrimSuffix_app (base suffix : string) :
  TrimSuffix (base ++ suffix) suffix = base.
Proof.
  induction base as [|c base IH].
  - apply TrimSuffix_self.
  - rewrite String_append, TrimSuffix_cons.
    destruct (String.eqb_spec (String c (base ++ suffix)) suffix) as [Heq|_].
    + by apply String_app_neq in Heq.
    + by rewrite IH.
Qed.

Lemma Split_first_no_sep (s a : string) (rest : list string) (sep : ascii) :
  Split s sep = a :: rest -> has_byte sep a = false.
Proof.
  revert a rest. induction s as [|c s IH]; simpl; intros a rest.
  - by intros [= <- _].
  - destruct (Ascii.eqb c sep) eqn:Hc; [by intros [= <- _]|].
    destruct (Split s sep) as [|p r] eqn:Hs.
    + intros [= <- _]. simpl. by rewrite Hc.
    + intros [= <- _]. simpl. rewrite Hc. by apply (IH p r).
Qed.

(** The identifier of a catalog file is its name without its extension:
    a file named [l.e], where the extension [e] has no dot and no
    separator, is the catalog of the language [l], whatever bytes [l] is
    made of; a name that opens with its only dot gives the empty
    identifier. *)
Theorem lang_of_name_extension (l e : string) :
  has_byte "." e = false -> has_byte "/" e = false ->
  lang_of_name (l ++ "." ++ e) = l /\ lang_of_name ("." ++ e) = "".
Proof.
  intros Hdot Hsep. unfold lang_of_name.
  change ("." ++ e) with (String "." e). split.
  - rewrite (Ext_dot l e Hdot Hsep). apply TrimSuffix_app.
  - pose proof (Ext_dot "" e Hdot Hsep) as Hext.
    change ("" ++ String "." e) with (String "." e) in Hext.
    rewrite Hext. apply TrimSuffix_self.
Qed.

Lemma lang_of_name_extension_witness :
  lang_of_name "zh.Hans-CN.json" = "zh.Hans-CN" /\ lang_of_name ".json" = "".
Proof.
  exact (lang_of_name_extension "zh.Hans-CN" "json" eq_refl eq_refl).
Defined.

(** Every file name is its language identifier followed by its extension,
    and a name with no dot is its own identifier. *)
Theorem lang_of_name_Ext (name : string) :
  lang_of_name name ++ Ext name = name
  /\ (has_byte "." name = false -> lang_of_name name = name).
Proof.
  unfold lang_of_name. split.
  - destruct (Ext_suffix name) as [base Hbase].
    rewrite Hbase at 1. rewrite TrimSuffix_app. by rewrite <- Hbase.
  - intros Hdot. rewrite (Ext_no_dot name Hdot).
    rewrite <- (append_empty name) at 1. apply TrimSuffix_app.
Qed.

Lemma lang_of_name_Ext_witness :
  has_byte "." "README" = false /\ lang_of_name "README" = "README".
Proof.
  split; [reflexivity|].
  destruct (lang_of_name_Ext "README") as [_ Hplain]. by apply Hplain.
Defined.

(** The earlier [New] cuts the file name at its first dot, the current one
    at its last: on a file named [l.e] they give the same language exactly
    when [l] has no dot. *)
Theorem Legacy_lang_of_name_agrees (l e : string) :
  has_byte "." e = false -> has_byte "/" e = false ->
  Legacy_lang_of_name (l ++ "." ++ e) = lang_of_name (l ++ "." ++ e)
  <-> has_byte "." l = false.
Proof.
  intros Hdot Hsep. unfold lang_of_name, Legacy_lang_of_name.
  change ("." ++ e) with (String "." e).
  rewrite (Ext_dot l e Hdot Hsep), TrimSuffix_app. split.
  - destruct (Split (l ++ String "." e) ".") as [|first rest] eqn:Hs;
      [by apply Split_not_nil in Hs|].
    intros ->. by apply Split_first_no_sep in Hs.
  - intros Hl. by rewrite Split_app.
Qed.

Lemma Legacy_lang_of_name_agrees_witness :
  Legacy_lang_of_name "en-US.json" = lang_of_name "en-US.json"
  /\ Legacy_lang_of_name "zh.Hans-CN.json" = "zh"
  /\ lang_of_name "zh.Hans-CN.json" = "zh.Hans-CN".
Proof.
  split; [|split; reflexivity].
  apply (Legacy_lang_of_name_agrees "en-US" "json" eq_refl eq_refl). reflexivity.
Defined.

(** ** Construction *)

Section Construction_properties.

Variable Walk : string -> list visit.
Variable ReadFile : string -> string + error.
Variable Unmarshal : string -> gmap string string + error.
Variable Getenv : string -> string.

Local Abbreviation walk_lang_files := (walk_lang_files ReadFile Unmarshal).
Local Abbreviation loadLangFiles := (loadLangFiles Walk ReadFile Unmarshal).
Local Abbreviation New := (New Walk ReadFile Unmarshal Getenv).
Local Abbreviation parsed := (parsed ReadFile Unmarshal).
Local Abbreviation loads := (loads ReadFile Unmarshal).
Local Abbreviation fails := (fails ReadFile Unmarshal).

Lemma walk_cons_loads (v : visit) (rest : list visit)
    (langList : gmap string (gmap string string)) :
  loads v ->
  exists langList',
    walk_lang_files (v :: rest) langList = walk_lang_files rest langList'
    /\ (forall lang, langList' !! lang = langList !! lang \/ catalog_file v lang)
    /\ (forall lang, ~ catalog_file v lang -> langList' !! lang = langList !! lang)
    /\ (forall lang langConfig,
          parsed v lang langConfig -> langList' !! lang = Some langConfig)
    /\ (forall lang, catalog_file v lang -> is_Some (langList' !! lang)).
Proof.
  intros (i & Hi & [Hdir | (Hfile & byteValue & langConfig & Hread & Hparse)]).
  - exists langList. simpl. rewrite Hi, Hdir. split; [done|].
    split; [by left|]. split; [done|]. split.
    + intros lang cfg (i' & b & Hi' & Hfile & _). congruence.
    + intros lang (i' & Hi' & Hfile & _). congruence.
  - exists (<[lang_of_name (Name i) := langConfig]> langList). simpl.
    rewrite Hi, Hfile, Hread, Hparse. split; [done|].
    split; [|split; [|split]].
    + intros lang. destruct (decide (lang_of_name (Name i) = lang)) as [Heq|Hne].
      * right. by exists i.
      * left. by rewrite lookup_insert_ne.
    + intros lang Hnot. rewrite lookup_insert_ne; [done|].
      intros Heq. apply Hnot. by exists i.
    + intros lang cfg (i' & b & Hi' & _ & Hlang & Hread' & Hparse').
      assert (i' = i) as -> by congruence.
      assert (b = byteValue) as -> by congruence.
      assert (cfg = langConfig) as -> by congruence.
      rewrite <- Hlang. apply lookup_insert_eq.
    + intros lang (i' & Hi' & _ & Hlang).
      assert (i' = i) as -> by congruence.
      rewrite <- Hlang, lookup_insert_eq. by eexists.
Qed.

Lemma walk_returns_loads (visits : list visit)
    (langList cat : gmap string (gmap string string)) :
  walk_lang_files visits langList = Returns (cat, None) ->
  forall v, v ∈ visits -> loads v.
Proof.
  revert langList. induction visits as [|v visits IH]; intros langList Hwalk w Hw;
    [by apply elem_of_nil in Hw|].
  assert (loads v /\ exists langList', walk_lang_files visits langList' = Returns (cat, None))
    as [Hv [langList' Hrest]].
  { simpl in Hwalk. destruct (info v) as [i|] eqn:Hi; [|done].
    destruct (IsDir i) eqn:Hdir.
    - split; [exists i; auto | eauto].
    - destruct (ReadFile (path v)) as [b|e] eqn:Hread; [|done].
      destruct (Unmarshal b) as [cfg|e] eqn:Hparse; [|done].
      split; [|eauto]. exists i. split; [done|]. right. split; [done|]. eauto. }
  apply elem_of_cons in Hw as [-> | Hw]; [done | by eapply IH].
Qed.

Lemma walk_loads_returns (visits : list visit)
    (langList : gmap string (gmap string string)) :
  (forall v, v ∈ visits -> loads v) ->
  exists cat, walk_lang_files visits langList = Returns (cat, None).
Proof.
  revert langList. induction visits as [|v visits IH]; intros langList Hall;
    [by eexists|].
  destruct (walk_cons_loads v visits langList) as (langList' & -> & _);
    [apply Hall; left|].
  apply IH. intros w Hw. apply Hall. by right.
Qed.

Lemma walk_keys (visits : list visit)
    (langList cat : gmap string (gmap string string)) :
  walk_lang_files visits langList = Returns (cat, None) ->
  forall lang,
    is_Some (cat !! lang)
    <-> is_Some (langList !! lang) \/ exists v, v ∈ visits /\ catalog_file v lang.
Proof.
  revert langList. induction visits as [|v visits IH]; intros langList Hwalk lang.
  - injection Hwalk as <-. split; [by left|].
    intros [H | (v & Hv & _)]; [done | by apply elem_of_nil in Hv].
  - pose proof (walk_returns_loads _ _ _ Hwalk v (list_elem_of_here v visits)) as Hv.
    destruct (walk_cons_loads v visits langList Hv)
      as (langList' & Heq & Hkeep & _ & _ & Hfile).
    rewrite Heq in Hwalk. rewrite (IH langList' Hwalk lang). split.
    + intros [Hin | (w & Hw & Hfw)].
      * destruct (Hkeep lang) as [Hsame | Hcat].
        -- left. by rewrite <- Hsame.
        -- right. exists v. split; [left | done].
      * right. exists w. split; [by right | done].
    + intros [Hin | (w & Hw & Hfw)].
      * left. destruct (Hkeep lang) as [Hsame | Hcat]; [by rewrite Hsame | auto].
      * apply elem_of_cons in Hw as [-> | Hw]; [left; auto | right; eauto].
Qed.

Lemma walk_untouched (visits : list visit)
    (langList cat : gmap string (gmap string string)) (lang : string) :
  walk_lang_files visits langList = Returns (cat, None) ->
  (forall v, v ∈ visits -> ~ catalog_file v lang) ->
  cat !! lang = langList !! lang.
Proof.
  revert langList. induction visits as [|v visits IH]; intros langList Hwalk Hnone.
  - by injection Hwalk as <-.
  - pose proof (walk_returns_loads _ _ _ Hwalk v (list_elem_of_here v visits)) as Hv.
    destruct (walk_cons_loads v visits langList Hv)
      as (langList' & Heq & _ & Hother & _).
    rewrite Heq in Hwalk. rewrite (IH langList' Hwalk).
    + apply Hother, Hnone. left.
    + intros w Hw. apply Hnone. by right.
Qed.

Lemma walk_prefix (before : list visit) (v : visit) (after : list visit)
    (langList : gmap string (gmap string string)) :
  (forall w, w ∈ before -> loads w) ->
  exists langList',
    walk_lang_files (before ++ v :: after) langList
    = walk_lang_files (v :: after) langList'.
Proof.
  revert langList. induction before as [|w before IH]; intros langList Hall;
    [by eexists|].
  destruct (walk_cons_loads w (before ++ v :: after) langList)
    as (langList' & Heq & _); [apply Hall; left|].
  destruct (IH langList') as [langList'' Hrest];
    [intros u Hu; apply Hall; by right|].
  exists langList''. simpl in Heq |- *. by rewrite Heq.
Qed.

Lemma loadLangFiles_unfold (langDir : string) :
  loadLangFiles langDir = walk_lang_files (Walk langDir) ∅.
Proof. reflexivity. Qed.

Lemma New_unfold (opts : list Option_) :
  New opts =
    match loadLangFiles (langDir (configured opts)) with
    | Panics p => Panics p
    | Returns (_, Some err) => Returns (inr err)
    | Returns (langList, None) =>
        if decide (size langList = 0%nat) then
          Returns (inr (mkError "没有找到语言配置文件"))
        else
          Returns (inl (mkManager langList (configured opts)
                          (Getenv (envKey (configured opts)))))
    end.
Proof. reflexivity. Qed.

(** The languages of the catalog that [loadLangFiles] returns without an
    error are the language identifiers of the files the walk meets, at any
    depth below the directory. *)
Theorem loadLangFiles_keys (langDir : string)
    (cat : gmap string (gmap string string)) :
  loadLangFiles langDir = Returns (cat, None) ->
  forall lang,
    is_Some (cat !! lang) <-> exists v, v ∈ Walk langDir /\ catalog_file v lang.
Proof.
  intros Hload lang. rewrite (walk_keys _ _ _ Hload lang), lookup_empty. split.
  - by intros [[? [=]] | Hv].
  - by right.
Qed.

(** When two files of the walk have the same language identifier, the
    catalog holds what the later one parses to. *)
Theorem loadLangFiles_last_file (langDir : string)
    (cat : gmap string (gmap string string)) (before after : list visit)
    (v : visit) (lang : string) (langConfig : gmap string string) :
  loadLangFiles langDir = Returns (cat, None) ->
  Walk langDir = (before ++ v :: after)%list ->
  parsed v lang langConfig ->
  (forall w, w ∈ after -> ~ catalog_file w lang) ->
  cat !! lang = Some langConfig.
Proof.
  intros Hload Hwalk Hv Hafter. rewrite loadLangFiles_unfold in Hload.
  rewrite Hwalk in Hload.
  assert (forall w, w ∈ before -> loads w) as Hbefore.
  { intros w Hw. apply (walk_returns_loads _ _ _ Hload).
    apply elem_of_app. by left. }
  destruct (walk_prefix before v after ∅ Hbefore) as [langList Hprefix].
  rewrite Hprefix in Hload.
  pose proof (walk_returns_loads _ _ _ Hload v (list_elem_of_here v after)) as Hloads.
  destruct (walk_cons_loads v after langList Hloads)
    as (langList' & Heq & _ & _ & Hparsed & _).
  rewrite Heq in Hload.
  rewrite (walk_untouched _ _ _ lang Hload Hafter). by apply Hparsed.
Qed.

(** [New] returns the error of the first file of the walk that cannot be
    read or parsed, and no Manager, whatever the files after it hold. *)
Theorem New_first_failure (opts : list Option_) (before after : list visit)
    (v : visit) (err : error) :
  Walk (langDir (configured opts)) = (before ++ v :: after)%list ->
  (forall w, w ∈ before -> loads w) ->
  fails v err ->
  New opts = Returns (inr err).
Proof.
  intros Hwalk Hbefore (i & Hi & Hfile & Hfail).
  rewrite New_unfold, loadLangFiles_unfold, Hwalk.
  destruct (walk_prefix before v after ∅ Hbefore) as [langList ->].
  simpl. rewrite Hi, Hfile.
  destruct Hfail as [-> | (byteValue & -> & ->)]; done.
Qed.

(** [New] panics, and returns no error, when the walk hands the callback
    no file information, as it does for a directory that does not exist:
    the callback calls [info.IsDir()] without looking at the error. *)
Theorem New_nil_info_panics (opts : list Option_) (before after : list visit)
    (v : visit) :
  Walk (langDir (configured opts)) = (before ++ v :: after)%list ->
  (forall w, w ∈ before -> loads w) ->
  info v = None ->
  New opts
  = Panics "runtime error: invalid memory address or nil pointer dereference".
Proof.
  intros Hwalk Hbefore Hnil.
  rewrite New_unfold, loadLangFiles_unfold, Hwalk.
  destruct (walk_prefix before v after ∅ Hbefore) as [langList ->].
  simpl. by rewrite Hnil.
Qed.

(** [New] returns a Manager exactly when the callback returns nil on every
    call of the walk and the walk meets at least one file.  The Manager
    then has a catalog with at least one language, the configured options
    and the run environment read under the configured key. *)
Theorem New_returns_Manager (opts : list Option_) :
  ((forall v, v ∈ Walk (langDir (configured opts)) -> loads v)
   /\ (exists v lang, v ∈ Walk (langDir (configured opts)) /\ catalog_file v lang)
   <-> exists m, New opts = Returns (inl m))
  /\ (forall m, New opts = Returns (inl m) ->
        loadLangFiles (langDir (configured opts)) = Returns (LangList m, None)
        /\ (0 < Count m)%nat
        /\ Option m = configured opts
        /\ RunEnv m = Getenv (envKey (configured opts))).
Proof.
  rewrite New_unfold.
  destruct (loadLangFiles (langDir (configured opts)))
    as [[cat [err|]]|p] eqn:Hload.
  - split; [|done]. split; [|by intros [m [=]]].
    intros [Hall _]. destruct (walk_loads_returns _ ∅ Hall) as [cat' Hcat'].
    rewrite loadLangFiles_unfold in Hload. congruence.
  - pose proof (fun lang => walk_keys _ _ _ Hload lang) as Hkeys.
    destruct (decide (size cat = 0%nat)) as [Hsize|Hsize].
    + split; [|done]. split; [|by intros [m [=]]].
      intros [_ (v & lang & Hv)].
      apply map_size_empty_inv in Hsize. subst cat.
      assert (is_Some ((∅ : gmap string (gmap string string)) !! lang))
        as [? Hsome] by (apply Hkeys; eauto).
      by rewrite lookup_empty in Hsome.
    + split.
      * split; [by eexists|]. intros _. split.
        -- apply (walk_returns_loads _ _ _ Hload).
        -- apply map_size_ne_0_lookup in Hsize as [lang Hlang].
           apply Hkeys in Hlang as [[? Hempty] | [v Hv]]; [|eauto].
           by rewrite lookup_empty in Hempty.
      * intros m [= <-]. unfold Count. simpl. split; [done|].
        split; [lia | done].
  - split; [|done]. split; [|by intros [m [=]]].
    intros [Hall _]. destruct (walk_loads_returns _ ∅ Hall) as [cat' Hcat'].
    rewrite loadLangFiles_unfold in Hload. congruence.
Qed.

(** In a directory tree with no file, [New] returns its error for a missing
    catalog. *)
Theorem New_no_file (opts : list Option_) :
  (forall v, v ∈ Walk (langDir (configured opts)) ->
     exists i, info v = Some i /\ IsDir i = true) ->
  New opts = Returns (inr (mkError "没有找到语言配置文件")).
Proof.
  intros Hdirs. rewrite New_unfold.
  assert (forall v, v ∈ Walk (langDir (configured opts)) -> loads v) as Hall.
  { intros v (i & Hi & Hdir)%Hdirs. exists i. auto. }
  destruct (walk_loads_returns _ ∅ Hall) as [cat Hcat].
  rewrite loadLangFiles_unfold, Hcat.
  assert (cat = ∅) as ->.
  { apply map_eq. intros lang. rewrite lookup_empty.
    apply eq_None_not_Some. intros Hsome.
    apply (walk_keys _ _ _ Hcat lang) in Hsome as [[? Hempty] | (v & Hv & Hfile)].
    - by rewrite lookup_empty in Hempty.
    - destruct (Hdirs v Hv) as (i & Hi & Hdir).
      destruct Hfile as (i' & Hi' & Hfile & _). congruence. }
  by rewrite decide_True by apply map_size_empty.
Qed.

(** Giving [WithDefaultLang lang] as the last option changes nothing of
    what [New] returns but the default language; for a non-empty [lang] the
    Manager is the one [SetLang lang] makes of the Manager built without
    that option. *)
Theorem New_WithDefaultLang (opts : list Option_) (lang : string) (m : Manager) :
  New opts = Returns (inl m) ->
  New (opts ++ [WithDefaultLang lang])
  = Returns (inl (mkManager (LangList m) (WithDefaultLang lang (Option m))
                    (RunEnv m)))
  /\ (lang <> "" ->
      New (opts ++ [WithDefaultLang lang]) = Returns (inl (SetLang lang m))).
Proof.
  intros Hnew.
  assert (New (opts ++ [WithDefaultLang lang])
          = Returns (inl (mkManager (LangList m) (WithDefaultLang lang (Option m))
                            (RunEnv m)))) as Hlast.
  { rewrite New_unfold in Hnew. rewrite New_unfold.
    assert (configured (opts ++ [WithDefaultLang lang])
            = WithDefaultLang lang (configured opts)) as ->
      by (unfold configured; by rewrite foldl_app).
    simpl.
    destruct (loadLangFiles (langDir (configured opts)))
      as [[cat [err|]]|p]; try done.
    destruct (decide (size cat = 0%nat)); [done|].
    by injection Hnew as <-. }
  split; [done|]. intros Hlang. rewrite Hlast.
  unfold SetLang. by rewrite decide_False.
Qed.

End Construction_properties.

Ltac visit_loads :=
  eexists; split;
  [ reflexivity
  | first [ left; reflexivity
          | right; split; [reflexivity | do 2 eexists; split; reflexivity] ] ].

Ltac visits_load Hw :=
  repeat (apply elem_of_cons in Hw as [-> | Hw]; [visit_loads|]);
  by apply elem_of_nil in Hw.

Lemma loadLangFiles_keys_witness :
  exists cat,
    loadLangFiles demo_Walk demo_ReadFile demo_Unmarshal "./lang"
    = Returns (cat, None)
    /\ (is_Some (cat !! "zh-CN")
        <-> exists v, v ∈ demo_Walk "./lang" /\ catalog_file v "zh-CN").
Proof.
  eexists. split; [reflexivity|].
  apply (loadLangFiles_keys demo_Walk demo_ReadFile demo_Unmarshal "./lang").
  reflexivity.
Defined.

Lemma loadLangFiles_last_file_witness :
  exists cat,
    loadLangFiles demo_Walk demo_ReadFile demo_Unmarshal "./lang"
    = Returns (cat, None)
    /\ demo_ReadFile "./lang/en-US.json" = inl en_document
    /\ demo_ReadFile "./lang/old/en-US.json" = inl "{}"
    /\ cat !! "en-US" = Some ∅.
Proof.
  eexists. split; [reflexivity|]. split; [reflexivity|]. split; [reflexivity|].
  apply (loadLangFiles_last_file demo_Walk demo_ReadFile demo_Unmarshal "./lang" _
           [ mkVisit "./lang" (Some (mkFileInfo "lang" true)) None;
             mkVisit "./lang/en-US.json" (Some (mkFileInfo "en-US.json" false)) None;
             mkVisit "./lang/old" (Some (mkFileInfo "old" true)) None ]
           [ mkVisit "./lang/zh-CN.json" (Some (mkFileInfo "zh-CN.json" false)) None ]
           (mkVisit "./lang/old/en-US.json" (Some (mkFileInfo "en-US.json" false)) None)).
  - reflexivity.
  - reflexivity.
  - do 2 eexists. repeat (split; [reflexivity|]). reflexivity.
  - intros w Hw (i & Hi & _ & Hlang).
    apply list_elem_of_singleton in Hw as ->.
    injection Hi as <-. discriminate Hlang.
Defined.

Lemma New_first_failure_witness :
  New demo_Walk demo_ReadFile demo_Unmarshal demo_Getenv [WithLangDir "./broken"]
  = Returns (inr (mkError "invalid character 'o' in literal true (expecting 'r')")).
Proof.
  apply (New_first_failure demo_Walk demo_ReadFile demo_Unmarshal demo_Getenv
           [WithLangDir "./broken"]
           [ mkVisit "./broken" (Some (mkFileInfo "broken" true)) None;
             mkVisit "./broken/en-US.json" (Some (mkFileInfo "en-US.json" false)) None ]
           []
           (mkVisit "./broken/notes.txt" (Some (mkFileInfo "notes.txt" false)) None)).
  - reflexivity.
  - intros w Hw. visits_load Hw.
  - eexists. split; [reflexivity|]. split; [reflexivity|].
    right. eexists. split; reflexivity.
Defined.

Lemma New_nil_info_panics_witness :
  demo_Walk "./missing"
  = [mkVisit "./missing" None (Some (mkError "no such file or directory"))]
  /\ New demo_Walk demo_ReadFile demo_Unmarshal demo_Getenv [WithLangDir "./missing"]
     = Panics "runtime error: invalid memory address or nil pointer dereference".
Proof.
  split; [reflexivity|].
  apply (New_nil_info_panics demo_Walk demo_ReadFile demo_Unmarshal demo_Getenv
           [WithLangDir "./missing"] [] []
           (mkVisit "./missing" None (Some (mkError "no such file or directory")))).
  - reflexivity.
  - intros w Hw. by apply elem_of_nil in Hw.
  - reflexivity.
Defined.

Lemma New_returns_Manager_witness :
  exists m,
    New demo_Walk demo_ReadFile demo_Unmarshal demo_Getenv [] = Returns (inl m)
    /\ (0 < Count m)%nat
    /\ Option m = mkOption "./lang" "en-US" "RUN_MODE" false
    /\ RunEnv m = "prod".
Proof.
  destruct (New_returns_Manager demo_Walk demo_ReadFile demo_Unmarshal demo_Getenv [])
    as [[Hreturns _] Hfields].
  destruct Hreturns as [m Hm].
  - split.
    + intros w Hw. visits_load Hw.
    + exists (mkVisit "./lang/zh-CN.json" (Some (mkFileInfo "zh-CN.json" false)) None),
        "zh-CN".
      split; [|by eexists].
      do 4 apply list_elem_of_further. apply list_elem_of_here.
  - exists m. split; [exact Hm|].
    destruct (Hfields m Hm) as (_ & Hcount & Hoption & Henv).
    split; [exact Hcount|]. split; [exact Hoption | exact Henv].
Defined.

Lemma New_no_file_witness :
  New demo_Walk demo_ReadFile demo_Unmarshal demo_Getenv [WithLangDir "./empty"]
  = Returns (inr (mkError "没有找到语言配置文件")).
Proof.
  apply (New_no_file demo_Walk demo_ReadFile demo_Unmarshal demo_Getenv
           [WithLangDir "./empty"]).
  intros v Hv. apply list_elem_of_singleton in Hv as ->. by eexists.
Defined.

Lemma New_WithDefaultLang_witness :
  New demo_Walk demo_ReadFile demo_Unmarshal demo_Getenv [] = Returns (inl demo_manager)
  /\ New demo_Walk demo_ReadFile demo_Unmarshal demo_Getenv [WithDefaultLang "zh-CN"]
     = Returns (inl (SetLang "zh-CN" demo_manager)).
Proof.
  assert (New demo_Walk demo_ReadFile demo_Unmarshal demo_Getenv []
          = Returns (inl demo_manager)) as Hnew by (vm_compute; reflexivity).
  split; [exact Hnew|].
  apply (New_WithDefaultLang demo_Walk demo_ReadFile demo_Unmarshal demo_Getenv
           [] "zh-CN" demo_manager Hnew).
  discriminate.
Defined.

(** ** The earlier [lang] *)

Lemma Legacy_lang_scan_cons (acc param : string) (rest : list string) :
  (forall v, Legacy_candidate param v -> Legacy.lang_scan acc (param :: rest)
                                         = Legacy.lang_scan v rest)
  /\ ((forall v, ~ Legacy_candidate param v) ->
      Legacy.lang_scan acc (param :: rest) = Legacy.lang_scan acc rest).
Proof.
  simpl. split.
  - intros v (k & more & Hsplit & Hk). rewrite Hsplit.
    rewrite decide_True by done.
    destruct (has_byte "=" param) eqn:Hbyte; [done|].
    rewrite (Split_no_sep _ _ Hbyte) in Hsplit. discriminate.
  - intros Hnone. destruct (has_byte "=" param); [|done].
    destruct (Split param "=") as [|k [|v more]] eqn:Hsplit; try done.
    case_decide as Hk; [|done]. destruct (Hnone v). by exists k, more.
Qed.

Lemma Legacy_lang_scan_none (acc : string) (params : list string) :
  (forall p, p ∈ params -> forall v, ~ Legacy_candidate p v) ->
  Legacy.lang_scan acc params = acc.
Proof.
  induction params as [|p params IH]; intros Hnone; [done|].
  destruct (Legacy_lang_scan_cons acc p params) as [_ ->].
  - apply IH. intros q Hq. apply Hnone. by right.
  - apply Hnone. left.
Qed.

Lemma Legacy_lang_scan_last (acc : string) (before after : list string)
    (param v : string) :
  Legacy_candidate param v ->
  (forall p, p ∈ after -> forall w, ~ Legacy_candidate p w) ->
  Legacy.lang_scan acc (before ++ param :: after) = v.
Proof.
  intros Hv Hafter. revert acc.
  induction before as [|p before IH]; intros acc.
  - destruct (Legacy_lang_scan_cons acc param after) as [Hstep _].
    rewrite app_nil_l, (Hstep v Hv). by apply Legacy_lang_scan_none.
  - rewrite <- app_comm_cons. simpl. destruct (has_byte "=" p); [|apply IH].
    destruct (Split p "=") as [|k [|w more]]; try apply IH.
    case_decide; apply IH.
Qed.

(** The earlier [lang]: a non-empty ["lang"] header first; otherwise the
    value of the last piece of the User-Agent keyed ["lang"] or ["Lang"],
    pieces with more than one ["="] included; otherwise the default
    language. *)
Theorem Legacy_lang_precedence (m : Manager) (c : Context) :
  let headerLang := Header_Get (Header (Request c)) "lang" in
  let pieces := Split (UserAgent (Request c)) ";" in
  (headerLang <> "" -> Legacy.lang m c = headerLang)
  /\ (headerLang = "" ->
      forall (before : list string) (param : string) (after : list string) v,
        pieces = (before ++ param :: after)%list ->
        Legacy_candidate param v ->
        (forall p, p ∈ after -> forall w, ~ Legacy_candidate p w) ->
        Legacy.lang m c = v)
  /\ (headerLang = "" ->
      (forall p, p ∈ pieces -> forall w, ~ Legacy_candidate p w) ->
      Legacy.lang m c = defaultLang (Option m)).
Proof.
  intros headerLang pieces. unfold Legacy.lang. fold headerLang. fold pieces.
  split; [|split].
  - intros Hh. by rewrite decide_False.
  - intros Hh before param after v -> Hv Hafter. rewrite decide_True by done.
    by apply Legacy_lang_scan_last.
  - intros Hh Hnone. rewrite decide_True by done.
    by apply Legacy_lang_scan_none.
Qed.

Lemma Legacy_lang_precedence_witness :
  Legacy.lang scenario_manager agent_context = "de-DE"
  /\ Legacy.lang scenario_manager plain_context = "en-US".
Proof.
  pose proof (Legacy_lang_precedence scenario_manager agent_context) as (_ & Hlast & _).
  pose proof (Legacy_lang_precedence scenario_manager plain_context) as (_ & _ & Hnone).
  split.
  - apply (Hlast eq_refl ["Mozilla/5.0"; "lang=a=b"; "lang=fr-FR"] "lang=de-DE" []).
    + reflexivity.
    + exists "lang", []. split; [reflexivity | by left].
    + intros p Hp. by apply elem_of_nil in Hp.
  - apply (Hnone eq_refl). intros p Hp w (k & more & Hsplit & _).
    apply list_elem_of_singleton in Hp as ->. discriminate Hsplit.
Defined.

(** ** The default language at work *)

Section SetLang_properties.

Variable Sprintf : string -> list string -> string.

(** [SetLang] moves the fallback of [Trans] and nothing else of it: a
    language of the catalog is translated as before; a language that is
    not in the catalog is translated as the new default language when the
    catalog has it, and otherwise every code is echoed. *)
Theorem SetLang_Trans (m : Manager) (d lang code : string) (params : list string) :
  d <> "" ->
  (is_Some (LangList m !! lang) ->
     Trans Sprintf (SetLang d m) lang code params = Trans Sprintf m lang code params)
  /\ (LangList m !! lang = None -> is_Some (LangList m !! d) ->
      Trans Sprintf (SetLang d m) lang code params = Trans Sprintf m d code params)
  /\ (LangList m !! lang = None -> LangList m !! d = None ->
      Trans Sprintf (SetLang d m) lang code params = code).
Proof.
  intros Hd. unfold SetLang. rewrite decide_False by done. unfold Trans. simpl.
  split; [|split].
  - by intros [l ->].
  - intros -> [l ->]. done.
  - intros -> ->. done.
Qed.

End SetLang_properties.

Lemma SetLang_Trans_witness :
  Trans Sprintf_sv (SetLang "zh-CN" demo_manager) "fr-FR" "0" [] = "hao"
  /\ Trans Sprintf_sv (SetLang "de-DE" demo_manager) "fr-FR" "0" [] = "0".
Proof.
  split.
  - destruct (SetLang_Trans Sprintf_sv demo_manager "zh-CN" "fr-FR" "0" [])
      as (_ & Hdefault & _); [discriminate|].
    rewrite Hdefault; [reflexivity | reflexivity | by eexists].
  - destruct (SetLang_Trans Sprintf_sv demo_manager "de-DE" "fr-FR" "0" [])
      as (_ & _ & Hecho); [discriminate|].
    apply Hecho; reflexivity.
Defined.

(** Of two calls of [SetLang] the later one stands, unless it is given the
    empty string; and what [lang] returns changes only for a request that
    names no language, for which it is the new default. *)
Theorem SetLang_last (m : Manager) (d : string) :
  d <> "" ->
  (forall earlier, SetLang d (SetLang earlier m) = SetLang d m)
  /\ (forall earlier, SetLang "" (SetLang earlier m) = SetLang earlier m)
  /\ (forall c,
        lang (SetLang d m) c
        = if decide (Header_Get (Header (Request c)) "lang" = ""
                     /\ lang_scan (Split (UserAgent (Request c)) ";") = None)
          then d else lang m c).
Proof.
  intros Hd. split; [|split].
  - intros earlier. unfold SetLang. rewrite decide_False by done.
    destruct (decide (earlier = "")); simpl; by rewrite ?decide_False by done.
  - done.
  - intros c. unfold SetLang. rewrite decide_False by done. unfold lang. simpl.
    destruct (decide (Header_Get (Header (Request c)) "lang" = "")) as [Hh|Hh].
    + destruct (lang_scan (Split (UserAgent (Request c)) ";")) as [v|].
      * rewrite decide_False; [done|]. by intros (_ & [=]).
      * by rewrite decide_True.
    + rewrite decide_False; [done|]. by intros (Hempty & _).
Qed.

Lemma SetLang_last_witness :
  SetLang "zh-CN" (SetLang "de-DE" demo_manager) = SetLang "zh-CN" demo_manager
  /\ lang (SetLang "zh-CN" demo_manager) plain_context = "zh-CN"
  /\ lang (SetLang "zh-CN" demo_manager) agent_context = "fr-FR".
Proof.
  destruct (SetLang_last demo_manager "zh-CN") as (Hlast & _ & Hlang);
    [discriminate|].
  split; [apply Hlast|]. split.
  - rewrite Hlang. reflexivity.
  - rewrite Hlang. reflexivity.
Defined.

(** [LangExist] and [Lang] agree on every language but the empty string,
    which [LangExist] may report and [Lang] never lists; and some language
    exists exactly when [Count] is positive. *)
Theorem LangExist_Lang (m : Manager) :
  (forall lang, lang ∈ Lang m -> LangExist m lang = true /\ lang <> "")
  /\ (forall lang, LangExist m lang = true -> lang <> "" -> lang ∈ Lang m)
  /\ ((exists lang, LangExist m lang = true) <-> (0 < Count m)%nat).
Proof.
  unfold LangExist, Lang, Count. split; [|split].
  - intros lang [Hne Hin%elem_of_keys]%list_elem_of_filter.
    by rewrite bool_decide_eq_true.
  - intros lang Hin%bool_decide_eq_true Hne.
    apply list_elem_of_filter. by rewrite elem_of_keys.
  - split.
    + intros [lang Hin%bool_decide_eq_true].
      assert (size (LangList m) <> 0%nat); [|lia].
      apply map_size_ne_0_lookup. destruct Hin as [l Hl]. eauto.
    + intros Hpos.
      assert (size (LangList m) <> 0%nat) as Hsize by lia.
      apply map_size_ne_0_lookup in Hsize as [lang Hl].
      exists lang. by rewrite bool_decide_eq_true.
Qed.

Lemma LangExist_Lang_witness :
  LangExist blank_lang_manager "" = true
  /\ LangExist blank_lang_manager "en-US" = true
  /\ "en-US" ∈ Lang blank_lang_manager
  /\ (0 < Count blank_lang_manager)%nat.
Proof.
  destruct (LangExist_Lang blank_lang_manager) as (_ & Hlisted & Hcount).
  split; [reflexivity|]. split; [reflexivity|]. split.
  - apply Hlisted; [reflexivity | discriminate].
  - apply Hcount. exists "en-US". reflexivity.
Defined.

Lemma isDebugMode_not_prod_witness :
  RunEnv debug_manager <> "prod"
  /\ isDebugMode debug_manager plain_context = true
  /\ isDebugMode scenario_manager header_context = true
  /\ isDebugMode scenario_manager plain_context <> true.
Proof.
  split; [discriminate|]. split; [|split].
  - apply (isDebugMode_not_prod debug_manager plain_context); [discriminate|].
    left. reflexivity.
  - apply (isDebugMode_not_prod scenario_manager header_context); [discriminate|].
    right. discriminate.
  - intros Hon.
    apply (isDebugMode_not_prod scenario_manager plain_context) in Hon;
      [|discriminate].
    destruct Hon as [Hflag | Hheader]; [discriminate Hflag | by apply Hheader].
Defined.

(** ** More on envelopes *)

Section envelope_properties.

Variable Sprintf : string -> list string -> string.

(** The envelope carries the code it was given and, as its trace id, the
    string stored under ["trace_id"] in the context, or the empty string
    when nothing is stored there. *)
Theorem result_trace_id (m : Manager) (c : Context) (code : Z) (data : any)
    (err : option error) :
  (Context_Get c "trace_id" = None ->
     exists res, result Sprintf m c code data err = Returns res
                 /\ ID (Trace res) = "" /\ Code res = code)
  /\ (forall id, Context_Get c "trace_id" = Some (VString id) ->
        exists res, result Sprintf m c code data err = Returns res
                    /\ ID (Trace res) = id /\ Code res = code).
Proof.
  split.
  - intros Hnone. eexists.
    split; [apply result_Returns; exists ""; split; [by left | reflexivity] | done].
  - intros id Hid. eexists.
    split; [apply result_Returns; exists id; split; [by right | reflexivity] | done].
Qed.

(** In the run environment ["prod"] no envelope carries the text of the
    error, whatever the [debugMode] option and the request say. *)
Theorem result_prod_hides_error (m : Manager) (c : Context) (code : Z)
    (data : any) (err : option error) :
  RunEnv m = "prod" ->
  (forall res, result Sprintf m c code data err = Returns res ->
     Desc (Trace res) = "")
  /\ (trace_id_ok c ->
      exists res, result Sprintf m c code data err = Returns res
                  /\ Desc (Trace res) = "").
Proof.
  intros Hprod.
  assert (forall res, result Sprintf m c code data err = Returns res ->
            Desc (Trace res) = "") as Hhidden.
  { intros res (id & _ & ->)%result_Returns. simpl.
    unfold isDebugMode. rewrite decide_True by done. by destruct err. }
  split; [done|]. intros [res Hres]%(result_returns Sprintf m c code data err).
  exists res. split; [done | by apply Hhidden].
Qed.

(** Of the request, [result] reads the ["lang"], ["debug"] and User-Agent
    headers and the ["trace_id"] key, and nothing else: requests that agree
    on them get the same envelope, or the same panic. *)
Theorem result_reads (m : Manager) (c1 c2 : Context) (code : Z) (data : any)
    (err : option error) :
  Header_Get (Header (Request c1)) "lang" = Header_Get (Header (Request c2)) "lang" ->
  Header_Get (Header (Request c1)) "debug" = Header_Get (Header (Request c2)) "debug" ->
  UserAgent (Request c1) = UserAgent (Request c2) ->
  Context_Get c1 "trace_id" = Context_Get c2 "trace_id" ->
  result Sprintf m c1 code data err = result Sprintf m c2 code data err.
Proof.
  intros Hlang Hdebug Hagent Htrace.
  unfold result, lang, isDebugMode. by rewrite Hlang, Hdebug, Hagent, Htrace.
Qed.



End envelope_properties.

Lemma result_trace_id_witness :
  Context_Get header_context "trace_id" = Some (VString "1213gsgdfd")
  /\ (exists res,
        result Sprintf_sv scenario_manager header_context 0 (VString "ok") None
        = Returns res
        /\ ID (Trace res) = "1213gsgdfd" /\ Code res = 0)
  /\ (exists res,
        result Sprintf_sv scenario_manager plain_context 500 (VString "fail") None
        = Returns res
        /\ ID (Trace res) = "" /\ Code res = 500).
Proof.
  split; [reflexivity|]. split.
  - destruct (result_trace_id Sprintf_sv scenario_manager header_context 0
                (VString "ok") None) as [_ Hid].
    apply Hid. reflexivity.
  - destruct (result_trace_id Sprintf_sv scenario_manager plain_context 500
                (VString "fail") None) as [Hnone _].
    apply Hnone. reflexivity.
Defined.

Lemma result_prod_hides_error_witness :
  debugMode (Option prod_manager) = true
  /\ Header_Get (Header (Request header_context)) "debug" = "1"
  /\ exists res,
       result Sprintf_sv prod_manager header_context (-1) (VString "busy")
         (Some (mkError "busy... ")) = Returns res
       /\ Desc (Trace res) = "".
Proof.
  split; [reflexivity|]. split; [reflexivity|].
  destruct (result_prod_hides_error Sprintf_sv prod_manager header_context (-1)
              (VString "busy") (Some (mkError "busy... ")) eq_refl) as [_ Hret].
  apply Hret. right. by eexists.
Defined.

Lemma result_reads_witness :
  result Sprintf_sv scenario_manager
    (Context_Set plain_context "response_code" (VInt 0)) 0 (VString "ok") None
  = result Sprintf_sv scenario_manager plain_context 0 (VString "ok") None.
Proof.
  apply (result_reads Sprintf_sv scenario_manager
           (Context_Set plain_context "response_code" (VInt 0)) plain_context);
    reflexivity.
Defined.
